(** * Linear regression by the matrix inverse method

    A shallow embedding of the notebook [01_lin_reg_inverse]: synthetic data
    on a line, the design matrix, the normal equation
    [x = (A^T A)^-1 A^T y] evaluated by TensorFlow operations, the printed
    coefficients, the plot and the TensorBoard log.

    Numbers.  The notebook computes in binary64.  Two readings of its
    arithmetic are given.  In the first every number is an exact rational
    in lowest terms ([Qc]): it carries the cells, their effects and the
    algebra of the normal equation.  The second ([Binary64]) rounds as the
    kernels of cell 6 do; it shows where the rounded solver parts from the
    algebra.

    Library operations (NumPy, TensorFlow, Matplotlib, [os]) are not part of
    the notebook; each is given by a definition that follows its documented
    behaviour, including the shape checks and the errors it raises. *)

From Stdlib Require Import QArith Qcanon Lqa Lia List String Bool.
From Stdlib Require PrimFloat FloatOps.
From stdpp Require Import gmap strings pretty.
Import ListNotations.

Local Open Scope string_scope.
Local Open Scope Qc_scope.

(** ** Exceptions and results *)

Inductive exception : Type :=
| ValueError (msg : string)
| InvalidArgumentError (msg : string)
| IndexError (msg : string)
| OSError (msg : string).

Inductive result (A : Type) : Type :=
| Ok (a : A)
| Raise (e : exception).

Arguments Ok {A} a.
Arguments Raise {A} e.

Definition rbind {A B : Type} (r : result A) (k : A -> result B) : result B :=
  match r with
  | Ok a => k a
  | Raise e => Raise e
  end.

Notation "'let!' x ':=' r 'in' k" := (rbind r (fun x => k))
  (at level 10, x name, r at level 200, k at level 200).

Definition is_raise {A : Type} (r : result A) : Prop :=
  match r with
  | Ok _ => False
  | Raise _ => True
  end.

(** ** Arrays

    A one-dimensional array is a list of numbers.  A two-dimensional array
    ([np.matrix], a rank-2 tensor) carries its shape next to its rows, as
    NumPy and TensorFlow do: a matrix with no rows still has a column
    count. *)

Record matrix : Type := Mat { nrows : nat; ncols : nat; rows : list (list Qc) }.

Definition wf (m : matrix) : Prop :=
  length (rows m) = nrows m /\ Forall (fun r => length r = ncols m) (rows m).

Fixpoint dot (u v : list Qc) : Qc :=
  match u, v with
  | a :: u', b :: v' => a * b + dot u' v'
  | _, _ => 0
  end.

Definition column (j : nat) (m : matrix) : list Qc :=
  map (fun r => nth j r 0) (rows m).

(** [np.matrix(v)] of a one-dimensional array: one row. *)
Definition np_matrix (v : list Qc) : matrix := Mat 1%nat (length v) [v].

(** [np.transpose] and [tf.transpose] of a rank-2 array. *)
Definition transpose (m : matrix) : matrix :=
  Mat (ncols m) (nrows m) (map (fun j => column j m) (seq 0%nat (ncols m))).

(** [np.repeat(v, k)]. *)
Definition np_repeat (v : Qc) (k : nat) : list Qc := repeat v k.

(** [np.column_stack((a, b))] of two rank-2 arrays: concatenation along
    axis 1; the row counts must agree. *)
Definition np_column_stack (a b : matrix) : result matrix :=
  if (nrows a =? nrows b)%nat
  then Ok (Mat (nrows a) (ncols a + ncols b)%nat (zip_with (@app Qc) (rows a) (rows b)))
  else Raise (ValueError "all the input array dimensions except for the concatenation axis must match exactly").

(** [a + b] on one-dimensional arrays, with NumPy broadcasting: equal
    lengths add pointwise, a length-1 operand is stretched, anything else
    is an error. *)
Definition np_add (a b : list Qc) : result (list Qc) :=
  if (length a =? length b)%nat then Ok (zip_with Qcplus a b)
  else match a, b with
       | [x], _ => Ok (map (fun v => x + v) b)
       | _, [y] => Ok (map (fun v => v + y) a)
       | _, _ => Raise (ValueError "operands could not be broadcast together")
       end.

Definition set_last (l : list Qc) (v : Qc) : list Qc :=
  match l with
  | [] => []
  | _ => removelast l ++ [v]
  end.

(** [np.linspace(start, stop, num)] with the default [endpoint=True]. *)
Definition np_linspace (start stop : Qc) (num : nat) : list Qc :=
  let div := (num - 1)%nat in
  let delta := stop - start in
  let y := map (fun i => Qc_of_Z (Z.of_nat i)) (seq 0%nat num) in
  if (1 <? num)%nat
  then let step := delta / Qc_of_Z (Z.of_nat div) in
       set_last (map (fun v => v * step + start) y) stop
  else map (fun v => v * delta + start) y.

(** ** TensorFlow operations

    The graph of the notebook holds constants only.  A tensor is identified
    with what [sess.run] yields for it: a matrix, or the error raised on the
    way.  (TensorFlow reports a shape mismatch already when the node is
    built; no cell has an effect between building the graph and running
    it, so the two moments are not told apart.) *)

Definition tensor : Type := result matrix.

Definition tf_constant (m : matrix) : tensor := Ok m.

Definition tf_transpose (t : tensor) : tensor :=
  let! m := t in Ok (transpose m).

Definition matmul (a b : matrix) : result matrix :=
  if (ncols a =? nrows b)%nat
  then Ok (Mat (nrows a) (ncols b)
             (map (fun r => map (fun c => dot r c) (rows (transpose b))) (rows a)))
  else Raise (ValueError "Dimensions must be equal").

Definition tf_matmul (a b : tensor) : tensor :=
  let! x := a in let! y := b in matmul x y.

(** Determinant by expansion along the first row, and the inverse as the
    transposed cofactor matrix over the determinant. *)

Fixpoint drop_nth {A : Type} (j : nat) (l : list A) : list A :=
  match l, j with
  | [], _ => []
  | _ :: t, O => t
  | h :: t, S j' => h :: drop_nth j' t
  end.

Definition sign (k : nat) : Qc := if Nat.even k then 1 else - (1).

Definition Qsum (l : list Qc) : Qc := fold_right Qcplus 0 l.

Fixpoint det (n : nat) (rs : list (list Qc)) : Qc :=
  match n with
  | O => 1
  | S k =>
      match rs with
      | [] => 0
      | r :: rest =>
          Qsum (map (fun j => sign j * nth j r 0 * det k (map (drop_nth j) rest))
                    (seq 0%nat (S k)))
      end
  end.

Definition cofactor (n i j : nat) (rs : list (list Qc)) : Qc :=
  sign (i + j)%nat * det (n - 1)%nat (map (drop_nth j) (drop_nth i rs)).

(** [tf.matrix_inverse], in exact arithmetic: the input must be square.
    The kernel factors the matrix and rejects a zero pivot with
    "Input is not invertible."; in exact arithmetic a zero pivot occurs
    exactly for the matrices whose determinant is zero.  The rounded
    kernel is [Binary64.matrix_inverse]. *)
Definition matrix_inverse (m : matrix) : result matrix :=
  if (nrows m =? ncols m)%nat
  then let n := nrows m in
       let d := det n (rows m) in
       if decide (d = 0)
       then Raise (InvalidArgumentError "Input is not invertible.")
       else Ok (Mat n n (map (fun i => map (fun j => cofactor n j i (rows m) / d) (seq 0%nat n))
                             (seq 0%nat n)))
  else Raise (ValueError "Shape must be square").

Definition tf_matrix_inverse (t : tensor) : tensor :=
  let! m := t in matrix_inverse m.

(** ** The normal equation (notebook cell 6) *)

Definition solution (A_tensor y_tensor : tensor) : tensor :=
  let tA_A := tf_matmul (tf_transpose A_tensor) A_tensor in
  let tA_A_inv := tf_matrix_inverse tA_A in
  let product := tf_matmul tA_A_inv (tf_transpose A_tensor) in
  tf_matmul product y_tensor.

(** ** The world the notebook runs in

    NumPy's global random generator is not seeded by the notebook.  The
    world holds the standard normal variates the generator will deliver,
    in order, and how many were consumed; the console; the current
    Matplotlib figure and the figures already shown; the paths that exist
    on the file system; and what names a new TensorFlow event file. *)

Record series : Type :=
  Series { sx : list Qc; sy : list Qc; fmt : string; label : string; linewidth : option nat }.

Record figure : Type := Figure { lines : list series; legend_loc : option string }.

Record World : Type := MkWorld {
  gauss : nat -> Qc;
  drawn : nat;
  stdout : list string;
  gcf : figure;
  shown : list figure;
  fs : gset string;
  timestamp : string;
  hostname : string
}.

Definition M (A : Type) : Type := World -> result A * World.

Definition ret {A : Type} (a : A) : M A := fun w => (Ok a, w).

Definition bind {A B : Type} (c : M A) (k : A -> M B) : M B :=
  fun w => match c w with
           | (Ok a, w') => k a w'
           | (Raise e, w') => (Raise e, w')
           end.

Definition lift {A : Type} (r : result A) : M A := fun w => (r, w).

Notation "'let*' x ':=' c 'in' k" := (bind c (fun x => k))
  (at level 10, x name, c at level 200, k at level 200).
Notation "'do*' c 'in' k" := (bind c (fun _ => k))
  (at level 10, c at level 200, k at level 200).

(** [np.random.normal(loc, scale, size)]: [size] fresh variates, each
    [loc + scale * z] for the next standard normal [z] of the generator. *)
Definition np_random_normal (loc scale : Qc) (size : nat) : M (list Qc) :=
  fun w =>
    (Ok (map (fun k => loc + scale * gauss w (drawn w + k)%nat) (seq 0%nat size)),
     MkWorld (gauss w) (drawn w + size)%nat (stdout w) (gcf w) (shown w) (fs w)
             (timestamp w) (hostname w)).

(** [sess.run(t)]. *)
Definition sess_run (t : tensor) : M matrix := lift t.

(** [print(s)]: one line on the console. *)
Definition print (s : string) : M unit :=
  fun w =>
    (Ok tt,
     MkWorld (gauss w) (drawn w) (stdout w ++ [s]) (gcf w) (shown w) (fs w)
             (timestamp w) (hostname w)).

Definition set_gcf (f : figure) (w : World) : World :=
  MkWorld (gauss w) (drawn w) (stdout w) f (shown w) (fs w) (timestamp w) (hostname w).

(** [plt.plot(x, y, fmt, label=..., linewidth=...)]. *)
Definition plt_plot (x y : list Qc) (f l : string) (lw : option nat) : M unit :=
  fun w =>
    if (length x =? length y)%nat
    then (Ok tt,
          set_gcf (Figure (lines (gcf w) ++ [Series x y f l lw]) (legend_loc (gcf w))) w)
    else (Raise (ValueError "x and y must have same first dimension"), w).

(** [plt.legend(loc=...)]. *)
Definition plt_legend (loc : string) : M unit :=
  fun w => (Ok tt, set_gcf (Figure (lines (gcf w)) (Some loc)) w).

(** [plt.show()]: the current figure is rendered and a fresh one begun. *)
Definition plt_show : M unit :=
  fun w =>
    (Ok tt,
     MkWorld (gauss w) (drawn w) (stdout w) (Figure [] None) (shown w ++ [gcf w]) (fs w)
             (timestamp w) (hostname w)).

Definition set_fs (s : gset string) (w : World) : World :=
  MkWorld (gauss w) (drawn w) (stdout w) (gcf w) (shown w) s (timestamp w) (hostname w).

(** [os.path.exists(p)] and [os.makedirs(p)]. *)
Definition os_path_exists (p : string) : M bool :=
  fun w => (Ok (bool_decide (p ∈ fs w)), w).

Definition os_makedirs (p : string) : M unit :=
  fun w =>
    if bool_decide (p ∈ fs w)
    then (Raise (OSError "File exists"), w)
    else (Ok tt, set_fs ({[ p ]} ∪ fs w) w).

(** The event file a [tf.summary.FileWriter] opens in its log directory. *)
Definition event_file (logdir : string) (w : World) : string :=
  logdir +:+ "events.out.tfevents." +:+ timestamp w +:+ "." +:+ hostname w.

(** [tf.summary.FileWriter(logdir, graph)]: the directory is created when
    missing and an event file holding the graph is written into it. *)
Definition tf_summary_FileWriter (logdir : string) : M string :=
  fun w =>
    let f := event_file logdir w in
    (Ok f, set_fs ({[ logdir; f ]} ∪ fs w) w).

(** [m[i]] on a rank-2 array and [v[j]] on a rank-1 array. *)
Definition getitem (m : matrix) (i : nat) : result (list Qc) :=
  match nth_error (rows m) i with
  | Some r => Ok r
  | None => Raise (IndexError "index out of bounds")
  end.

Definition getitem1 (v : list Qc) (j : nat) : result Qc :=
  match nth_error v j with
  | Some q => Ok q
  | None => Raise (IndexError "index out of bounds")
  end.

(** ** The notebook, cell by cell *)

(** Cell 3, second line: the y-values of given x-values. *)
Definition make_y_vals (x_vals : list Qc) : M (list Qc) :=
  let* noise := np_random_normal 0 1 100%nat in
  lift (np_add x_vals noise).

(** Cell 3: the data. *)
Definition create_data : M (list Qc * list Qc) :=
  let x_vals := np_linspace 0 (Qc_of_Z 10) 100%nat in
  let* y_vals := make_y_vals x_vals in
  ret (x_vals, y_vals).

(** Cell 4: the design matrix. *)
Definition design_matrix (x_vals : list Qc) : result matrix :=
  let x_vals_column := transpose (np_matrix x_vals) in
  let ones_column := transpose (np_matrix (np_repeat 1 100%nat)) in
  np_column_stack x_vals_column ones_column.

(** Cells 5 and 6: the tensors and the normal equation. *)
Definition solve (A : matrix) (y_vals : list Qc) : tensor :=
  let y := transpose (np_matrix y_vals) in
  let A_tensor := tf_constant A in
  let y_tensor := tf_constant y in
  solution A_tensor y_tensor.

(** Cell 7: the coefficients. *)
Definition extract_coefficients (solution_eval : matrix) : result (Qc * Qc) :=
  let! r0 := getitem solution_eval 0%nat in
  let! slope := getitem1 r0 0%nat in
  let! r1 := getitem solution_eval 1%nat in
  let! y_intercept := getitem1 r1 0%nat in
  Ok (slope, y_intercept).

Section Notebook.

(** Python's [str] on a number. *)
Variable str : Qc -> string.

(** Cell 8: the report and the best fit line. *)
Definition report (x_vals : list Qc) (slope y_intercept : Qc) : M (list Qc) :=
  do* print ("slope: " +:+ str slope) in
  do* print ("y_intercept: " +:+ str y_intercept) in
  ret (map (fun i => slope * i + y_intercept) x_vals).

(** Cell 9: the plot. *)
Definition plot_results (x_vals y_vals best_fit : list Qc) : M unit :=
  do* plt_plot x_vals y_vals "o" "Data" None in
  do* plt_plot x_vals best_fit "r-" "Best fit line" (Some 3%nat) in
  do* plt_legend "upper left" in
  plt_show.

(** Cell 10: the TensorBoard log of the session graph.  (The cell first
    calls [tf.summary.merge_all]; no summary was ever added, so the call
    returns [None] and does nothing.) *)
Definition write_graph : M string :=
  let* e := os_path_exists "tensorboard_logs/" in
  do* (if negb e then os_makedirs "tensorboard_logs/" else ret tt) in
  tf_summary_FileWriter "tensorboard_logs/".

(** Everything after the x-values are chosen. *)
Definition pipeline (x_vals : list Qc) : M unit :=
  let* y_vals := make_y_vals x_vals in
  let* A := lift (design_matrix x_vals) in
  let* solution_eval := sess_run (solve A y_vals) in
  let* c := lift (extract_coefficients solution_eval) in
  let* best_fit := report x_vals (fst c) (snd c) in
  do* plot_results x_vals y_vals best_fit in
  let* my_writer := write_graph in
  ret tt.

(** The notebook, run top to bottom. *)
Definition notebook : M unit := pipeline (np_linspace 0 (Qc_of_Z 10) 100%nat).

End Notebook.

(** * The solver in binary64

    What cell 6 computes when [sess.run] evaluates it on a CPU, with the
    rounding of IEEE 754 binary64 ([PrimFloat]).

    - [tf.matmul] rounds every product and every partial sum.  The order
      in which the kernel adds the products of one entry is not fixed by
      TensorFlow (it depends on how the kernel is vectorised); it is the
      parameter [accumulate], and [accumulation_orders] lists the orders
      the statements below are proved for: one after the other, and two or
      four interleaved partial sums.
    - [tf.matrix_inverse] factors the matrix as [P A = L U] with partial
      pivoting, raises when a pivot of the rounded factorisation is zero,
      and otherwise solves [L U X = P] by substitution, multiplying by the
      reciprocal of each pivot.  No test is made on the determinant or on
      the conditioning of the matrix. *)

Module Binary64.

Import PrimFloat SpecFloat FloatOps.
Local Open Scope float_scope.

Record matrix : Type := Mat { nrows : nat; ncols : nat; rows : list (list float) }.

(** Orders of accumulation. *)

Definition sequential (products : list float) : float := fold_left add products 0.

Fixpoint deal (lanes products : list float) : list float * list float :=
  match lanes, products with
  | a :: lanes', p :: products' =>
      let '(r, rest) := deal lanes' products' in ((a + p) :: r, rest)
  | _, _ => (lanes, products)
  end.

Fixpoint lanes_from (fuel : nat) (lanes products : list float) : list float :=
  match fuel, products with
  | S fuel', _ :: _ =>
      let '(lanes', rest) := deal lanes products in lanes_from fuel' lanes' rest
  | _, _ => lanes
  end.

Definition two_lanes (products : list float) : float :=
  match lanes_from (length products) [0; 0] products with
  | [a; b] => a + b
  | _ => 0
  end.




(** The rows of the factorisation in progress: the multipliers found so
    far, what is left of the row, and the row's share of [P]. *)
Record lu_row : Type := LuRow { lower : list float; upper : list float; rhs : list float }.

Section Kernels.

Variable accumulate : list float -> float.

Definition dot (u v : list float) : float := accumulate (zip_with mul u v).

Definition column (j : nat) (m : matrix) : list float :=
  map (fun r => nth j r 0) (rows m).

Definition transpose (m : matrix) : matrix :=
  Mat (ncols m) (nrows m) (map (fun j => column j m) (seq 0%nat (ncols m))).

Definition matmul (a b : matrix) : result matrix :=
  if (ncols a =? nrows b)%nat
  then Ok (Mat (nrows a) (ncols b)
             (map (fun r => map (fun c => dot r c) (rows (transpose b))) (rows a)))
  else Raise (ValueError "Dimensions must be equal").

(** The first row whose leading entry has the largest magnitude. *)
Fixpoint argmax_from (best : float) (ibest i : nat) (l : list float) : nat :=
  match l with
  | [] => ibest
  | v :: t => if ltb best (abs v) then argmax_from (abs v) i (S i) t
              else argmax_from best ibest (S i) t
  end.

Definition argmax (l : list float) : nat :=
  match l with
  | [] => 0%nat
  | v :: t => argmax_from (abs v) 0 1 t
  end.

Definition swap_front {A : Type} (p : nat) (l : list A) : list A :=
  match l, p with
  | r0 :: t, S p' =>
      match nth_error t p' with
      | Some rp => rp :: firstn p' t ++ r0 :: skipn (S p') t
      | None => l
      end
  | _, _ => l
  end.

(** One row of an elimination step: the multiplier is the quotient by the
    pivot (left as it is under a zero pivot), and the rest of the row
    loses that multiple of the pivot row. *)
Definition eliminate (pivot r : lu_row) : lu_row :=
  let p := hd 0 (upper pivot) in
  let q := hd 0 (upper r) in
  let l := if eqb p 0 then q else q / p in
  LuRow (lower r ++ [l])
        (zip_with (fun t u => t - l * u) (tl (upper r)) (tl (upper pivot)))
        (rhs r).

Fixpoint factor (n : nat) (rs : list lu_row) : list lu_row :=
  match n with
  | O => []
  | S k =>
      match swap_front (argmax (map (fun r => hd 0 (upper r)) rs)) rs with
      | [] => []
      | pivot :: rest => pivot :: factor k (map (eliminate pivot) rest)
      end
  end.

Definition identity_row (n i : nat) : list float :=
  map (fun j => if (i =? j)%nat then 1 else 0) (seq 0%nat n).

Definition axpy (c : float) (acc v : list float) : list float :=
  zip_with (fun a x => a - c * x) acc v.

(** Substitution through the unit lower factor, then through the upper
    factor from the last row up. *)
Fixpoint forward (solved : list (list float)) (rs : list lu_row) : list (list float) :=
  match rs with
  | [] => []
  | r :: t =>
      let z := fold_left (fun acc lz => axpy (fst lz) acc (snd lz))
                         (combine (lower r) solved) (rhs r) in
      z :: forward (solved ++ [z]) t
  end.

Fixpoint backward (rs : list (lu_row * list float)) : list (list float) :=
  match rs with
  | [] => []
  | (r, z) :: t =>
      let xs := backward t in
      let acc := fold_left (fun acc ux => axpy (fst ux) acc (snd ux))
                           (combine (tl (upper r)) xs) z in
      map (fun v => v * (1 / hd 0 (upper r))) acc :: xs
  end.

Definition matrix_inverse (m : matrix) : result matrix :=
  if (nrows m =? ncols m)%nat
  then let n := nrows m in
       let lu := factor n (map (fun ir => LuRow [] (snd ir) (identity_row n (fst ir)))
                               (combine (seq 0%nat n) (rows m))) in
       if forallb (fun r => ltb 0 (abs (hd 0 (upper r)))) lu
       then Ok (Mat n n (backward (combine lu (forward [] lu))))
       else Raise (InvalidArgumentError "Input is not invertible.")
  else Raise (ValueError "Shape must be square").

(** Cell 6. *)
Definition solution (A y : matrix) : result matrix :=
  let! tA_A := matmul (transpose A) A in
  let! tA_A_inv := matrix_inverse tA_A in
  let! product := matmul tA_A_inv (transpose A) in
  matmul product y.

End Kernels.

(** The layout of cells 4 and 5: x-values then ones, and the targets as
    one column. *)
Definition design_of (x : list float) : matrix :=
  Mat (length x) 2 (map (fun v => [v; 1]) x).

Definition column_of (y : list float) : matrix :=
  Mat (length y) 1 (map (fun v => [v]) y).

(** The rational a finite binary64 number stands for. *)
Definition to_Qc (f : float) : option Qc :=
  match Prim2SF f with
  | S754_zero _ => Some (Q2Qc 0)
  | S754_finite s m e =>
      Some (Q2Qc (inject_Z (if s then Z.neg m else Z.pos m) * Qpower 2 e))
  | _ => None
  end.


Definition x_far : list float := [100000000; 100000001; 100000002; 100000003].



End Binary64.

(** * Vocabulary of the statements *)

(** Entries of the Gram matrix [A^T A], of the moment vector [A^T y], and
    the determinant of the Gram matrix of a two-column design matrix. *)
Definition gram (A : matrix) (i j : nat) : Qc := dot (column i A) (column j A).

Definition moment (A : matrix) (i : nat) (y : list Qc) : Qc := dot (column i A) y.

Definition gram_det (A : matrix) : Qc :=
  gram A 0 0 * gram A 1 1 - gram A 0 1 * gram A 0 1.

(** [A x] for a coefficient vector [x], and the squared residual norm
    [|A x - y|^2]. *)
Definition matvec (A : matrix) (x : list Qc) : list Qc :=
  map (fun r => dot r x) (rows A).

Definition sq_residual (A : matrix) (x y : list Qc) : Qc :=
  let r := zip_with Qcminus (matvec A x) y in dot r r.

(** The columns of [A] are linearly independent: only the zero
    combination of them vanishes. *)
Definition lin_indep_cols (A : matrix) : Prop :=
  forall c : list Qc,
    length c = ncols A ->
    Forall (fun v => v = 0) (matvec A c) ->
    Forall (fun v => v = 0) c.

(** A sequence all of whose values are identical. *)
Definition constant (x : list Qc) : Prop :=
  forall u v : Qc, In u x -> In v x -> u = v.

(** The layout cell 4 gives the design matrix: column 0 holds the
    x-values, column 1 holds ones. *)
Definition design_of (x : list Qc) : matrix :=
  Mat (length x) 2 (map (fun v => [v; 1]) x).


(** The noise cell 3 draws in world [w], and the world after the draw. *)
Definition noise_of (w : World) : list Qc :=
  map (fun k => 0 + 1 * gauss w (drawn w + k)%nat) (seq 0%nat 100%nat).

Definition after_draw (w : World) : World :=
  MkWorld (gauss w) (drawn w + 100)%nat (stdout w) (gcf w) (shown w) (fs w)
          (timestamp w) (hostname w).

(** A run leaves the file system as it found it. *)
Definition leaves_no_files (c : M unit) : Prop :=
  forall w : World, fs (snd (c w)) = fs w.

(** The two lines of the report. *)
Definition report_lines (str : Qc -> string) (slope y_intercept : Qc) : list string :=
  ["slope: " +:+ str slope; "y_intercept: " +:+ str y_intercept].

(** The figure of cell 9, drawn on top of what the current figure holds. *)
Definition fit_figure (f : figure) (x_vals y_vals : list Qc) (slope y_intercept : Qc) : figure :=
  Figure (lines f ++ [Series x_vals y_vals "o" "Data" None;
                      Series x_vals (map (fun i => slope * i + y_intercept) x_vals)
                             "r-" "Best fit line" (Some 3%nat)])
         (Some "upper left").

(** The world a successful run of the pipeline leaves behind. *)
Definition after_pipeline (str : Qc -> string) (x_vals y_vals : list Qc)
    (slope y_intercept : Qc) (w : World) : World :=
  MkWorld (gauss w) (drawn w + 100)%nat
          (stdout w ++ report_lines str slope y_intercept)
          (Figure [] None)
          (shown w ++ [fit_figure (gcf w) x_vals y_vals slope y_intercept])
          ({[ "tensorboard_logs/"; event_file "tensorboard_logs/" w ]} ∪ fs w)
          (timestamp w) (hostname w).




(** A world with an empty file system and a silent generator, a world
    whose generator alternates between 1 and -1, and a rendering of exact
    rationals as numerator/denominator. *)
Definition empty_world : World :=
  MkWorld (fun _ => 0) 0 [] (Figure [] None) [] ∅ "1541171307" "localhost".

Definition alternating_world : World :=
  MkWorld (fun k => if Nat.even k then 1 else - (1)) 0 [] (Figure [] None) [] ∅
          "1541171307" "localhost".

Definition str_fraction (q : Qc) : string :=
  pretty (Qnum q) +:+ "/" +:+ pretty (Z.pos (Qden q)).

Definition x_identity : list Qc := [0; 1; Qc_of_Z 2; Qc_of_Z 3].

Definition A4 : matrix :=
  Mat 4 2 [[0; 1]; [1; 1]; [Qc_of_Z 2; 1]; [Qc_of_Z 3; 1]].

Definition y4 : matrix := Mat 4 1 [[0]; [1]; [Qc_of_Z 2]; [Qc_of_Z 3]].

(** Equality of results, matrices, lists and pairs, entry by entry. *)
Ltac entrywise :=
  repeat match goal with
         | |- Ok _ = Ok _ => f_equal
         | |- Mat _ _ _ = Mat _ _ _ => f_equal
         | |- _ :: _ = _ :: _ => f_equal
         | |- (_, _) = (_, _) => f_equal
         | |- Some _ = Some _ => f_equal
         end.


(** * Properties *)

(** ** Lists and shapes *)

Lemma rbind_Ok {A B : Type} (a : A) (k : A -> result B) : rbind (Ok a) k = k a.
Proof. reflexivity. Qed.

Lemma map_nth_seq {A B : Type} (f : A -> B) (d : A) (l : list A) :
  map (fun j => f (nth j l d)) (seq 0 (length l)) = map f l.
Proof.
  induction l as [|a l IH]; [reflexivity|].
  cbn [length seq map nth]. f_equal.
  rewrite <- seq_shift, map_map. exact IH.
Qed.

Lemma nth_column (i j : nat) (rs : list (list Qc)) :
  nth i (map (fun r => nth j r 0) rs) 0 = nth j (nth i rs []) 0.
Proof.
  revert i. induction rs as [|r rs IH]; intros [|i]; cbn [map nth]; auto.
  - destruct j; reflexivity.
  - destruct j; reflexivity.
Qed.

Lemma transpose_involutive (m : matrix) : wf m -> transpose (transpose m) = m.
Proof.
  destruct m as [n c rs]. unfold wf, transpose, column. cbn [nrows ncols rows].
  intros [Hn Hc]. f_equal.
  rewrite <- Hn.
  transitivity (map (fun r : list Qc => map (fun j => nth j r 0) (seq 0 c)) rs).
  - rewrite <- (map_nth_seq (fun r : list Qc => map (fun j => nth j r 0) (seq 0 c)) [] rs).
    apply map_ext. intros i. rewrite map_map.
    apply map_ext. intros j. apply nth_column.
  - rewrite <- (map_id rs) at 2. apply map_ext_Forall.
    eapply Forall_impl; [exact Hc|]. cbn beta. intros r Hr.
    rewrite <- Hr. rewrite (map_nth_seq (fun v : Qc => v)). apply map_id.
Qed.

Lemma wf_transpose (m : matrix) : wf m -> wf (transpose m).
Proof.
  unfold wf, transpose, column. cbn [nrows ncols rows]. intros [Hn _]. split.
  - now rewrite length_map, length_seq.
  - apply List.Forall_forall. intros r Hr. apply in_map_iff in Hr as (j & <- & _).
    now rewrite length_map.
Qed.

Lemma rows_width2 (rs : list (list Qc)) :
  Forall (fun r => length r = 2%nat) rs ->
  map (fun r => [nth 0 r 0; nth 1 r 0]) rs = rs.
Proof.
  induction 1 as [|r rs Hr _ IH]; [reflexivity|].
  cbn [map]. rewrite IH. f_equal.
  destruct r as [|a [|b [|? ?]]]; try discriminate Hr. reflexivity.
Qed.

Lemma transpose_np_matrix (v : list Qc) :
  transpose (np_matrix v) = Mat (length v) 1 (map (fun q => [q]) v).
Proof.
  unfold transpose, np_matrix, column. cbn [nrows ncols rows map]. f_equal.
  apply (map_nth_seq (fun q : Qc => [q])).
Qed.

Lemma column0_singletons (v : list Qc) : map (fun r => nth 0 r 0) (map (fun q => [q]) v) = v.
Proof. rewrite map_map. cbn [nth]. apply map_id. Qed.

(** ** Sums of products *)

Lemma dot_comm (u v : list Qc) : dot u v = dot v u.
Proof.
  revert v. induction u as [|a u IH]; intros [|b v]; cbn [dot]; try reflexivity.
  rewrite IH. ring.
Qed.

Lemma dot_row2 (p q : Qc) (rs : list (list Qc)) (y : list Qc) :
  Forall (fun r => length r = 2%nat) rs ->
  dot (map (dot [p; q]) rs) y
  = p * dot (map (fun r => nth 0 r 0) rs) y + q * dot (map (fun r => nth 1 r 0) rs) y.
Proof.
  intros H. revert y. induction H as [|r rs Hr _ IH]; intros y.
  - cbn [map dot]. ring.
  - destruct r as [|a [|b [|? ?]]]; try discriminate Hr.
    destruct y as [|v y]; cbn [map dot nth]; [ring|].
    rewrite IH. ring.
Qed.

Lemma Qc_square_nonneg (a : Qc) : 0 <= a * a.
Proof.
  destruct (Qclt_le_dec a 0) as [H|H].
  - replace (a * a) with ((- a) * (- a)) by ring.
    assert (H0 : 0 <= - a).
    { apply Qclt_le_weak in H. apply Qcopp_le_compat in H.
      replace (- 0) with 0 in H by ring. exact H. }
    replace 0 with (0 * - a) at 1 by ring.
    apply Qcmult_le_compat_r; assumption.
  - replace 0 with (0 * a) at 1 by ring.
    apply Qcmult_le_compat_r; assumption.
Qed.

Lemma dot_self_nonneg (v : list Qc) : 0 <= dot v v.
Proof.
  induction v as [|a v IH]; cbn [dot]; [apply Qcle_refl|].
  apply Qcplus_nonneg_nonneg; [apply Qc_square_nonneg | exact IH].
Qed.

Lemma Qc_sum_nonneg_zero (a b : Qc) : 0 <= a -> 0 <= b -> a + b = 0 -> a = 0.
Proof.
  intros Ha Hb E. apply Qcle_antisym; [|exact Ha].
  replace a with (0 - b) by (rewrite <- E; ring).
  replace (0 - b) with (- b) by ring.
  apply Qcopp_le_compat in Hb. replace (- 0) with 0 in Hb by ring. exact Hb.
Qed.

Lemma dot_self_zero (v : list Qc) : dot v v = 0 -> Forall (fun a => a = 0) v.
Proof.
  induction v as [|a v IH]; cbn [dot]; intros E; constructor.
  - assert (Ha : a * a = 0).
    { apply (Qc_sum_nonneg_zero _ (dot v v));
        [apply Qc_square_nonneg | apply dot_self_nonneg | exact E]. }
    apply Qcmult_integral in Ha. tauto.
  - apply IH. rewrite Qcplus_comm in E.
    apply (Qc_sum_nonneg_zero _ (a * a));
      [apply dot_self_nonneg | apply Qc_square_nonneg | exact E].
Qed.

Lemma dot_zero_r (u v : list Qc) : Forall (fun a => a = 0) v -> dot u v = 0.
Proof.
  intros H. revert u. induction H as [|b v Hb _ IH]; intros [|a u]; cbn [dot]; try reflexivity.
  rewrite Hb, IH. ring.
Qed.

Lemma dot_matvec2 (u : list Qc) (A : matrix) (p q : Qc) :
  Forall (fun r => length r = 2%nat) (rows A) ->
  dot u (matvec A [p; q]) = p * dot u (column 0 A) + q * dot u (column 1 A).
Proof.
  intros H. unfold matvec, column.
  rewrite (map_ext (fun r => dot r [p; q]) (dot [p; q])) by (intros; apply dot_comm).
  rewrite dot_comm, dot_row2 by exact H.
  now rewrite (dot_comm u), (dot_comm u).
Qed.

(** ** Evaluating the normal equation on a two-column design matrix *)

Lemma matmul_Ok (a b : matrix) :
  ncols a = nrows b ->
  matmul a b = Ok (Mat (nrows a) (ncols b)
                     (map (fun r => map (fun c => dot r c) (rows (transpose b))) (rows a))).
Proof. intros E. unfold matmul. rewrite E, Nat.eqb_refl. reflexivity. Qed.

Lemma transpose_two_columns (A : matrix) :
  ncols A = 2%nat -> transpose A = Mat 2 (nrows A) [column 0 A; column 1 A].
Proof. intros E. unfold transpose. rewrite E. reflexivity. Qed.

Lemma gram_matrix (A : matrix) :
  ncols A = 2%nat ->
  matmul (transpose A) A
  = Ok (Mat 2 2 [[gram A 0 0; gram A 0 1]; [gram A 0 1; gram A 1 1]]).
Proof.
  intros E. rewrite matmul_Ok by reflexivity.
  rewrite (transpose_two_columns A E). cbn [nrows ncols rows map]. rewrite E.
  unfold gram. now rewrite (dot_comm (column 1 A) (column 0 A)).
Qed.

Lemma matrix_inverse_2x2 (a b c d : Qc) :
  matrix_inverse (Mat 2 2 [[a; b]; [c; d]])
  = if decide (a * d - b * c = 0)
    then Raise (InvalidArgumentError "Input is not invertible.")
    else Ok (Mat 2 2 [[d / (a * d - b * c); - b / (a * d - b * c)];
                      [- c / (a * d - b * c); a / (a * d - b * c)]]).
Proof.
  unfold matrix_inverse. cbn [nrows ncols rows Nat.eqb].
  cbn [det cofactor seq map Qsum fold_right nth drop_nth sign Nat.even Nat.add Nat.sub].
  replace (1 * a * (1 * d * 1 + 0) + (- (1) * b * (1 * c * 1 + 0) + 0))
    with (a * d - b * c) by ring.
  destruct (decide (a * d - b * c = 0)) as [E|NE]; [reflexivity|].
  entrywise; unfold cofactor;
    cbn [det seq map Qsum fold_right nth drop_nth sign Nat.even Nat.add Nat.sub];
    field; exact NE.
Qed.

Lemma solution_two_columns (A y : matrix) :
  wf A -> ncols A = 2%nat -> ncols y = 1%nat -> nrows y = nrows A ->
  solution (tf_constant A) (tf_constant y)
  = if decide (gram_det A = 0)
    then Raise (InvalidArgumentError "Input is not invertible.")
    else Ok (Mat 2 1
               [[(gram A 1 1 * moment A 0 (column 0 y) - gram A 0 1 * moment A 1 (column 0 y))
                 / gram_det A];
                [(gram A 0 0 * moment A 1 (column 0 y) - gram A 0 1 * moment A 0 (column 0 y))
                 / gram_det A]]).
Proof.
  intros HA Hc Hy Hn.
  unfold solution, tf_constant, tf_transpose, tf_matmul, tf_matrix_inverse.
  cbn [rbind].
  rewrite (gram_matrix A Hc). cbn [rbind].
  rewrite matrix_inverse_2x2. fold (gram_det A).
  destruct (decide (gram_det A = 0)) as [E|NE]; [reflexivity|].
  cbn [rbind].
  rewrite matmul_Ok by (unfold transpose; cbn [nrows ncols]; congruence).
  rewrite (transpose_involutive A HA).
  cbn [rbind nrows ncols rows map].
  rewrite matmul_Ok by (unfold transpose; cbn [nrows ncols]; congruence).
  cbn [nrows ncols rows map].
  unfold transpose. rewrite Hy. cbn [seq map rows].
  destruct HA as [_ HA]. rewrite Hc in HA.
  rewrite !dot_row2 by exact HA.
  fold (column 0 A) (column 1 A).
  fold (moment A 0 (column 0 y)) (moment A 1 (column 0 y)).
  entrywise; field; exact NE.
Qed.

(** ** The residual as a quadratic form *)

Lemma quadratic_form (A : matrix) (p q : Qc) :
  Forall (fun r => length r = 2%nat) (rows A) ->
  dot (matvec A [p; q]) (matvec A [p; q])
  = p * p * gram A 0 0 + (1 + 1) * p * q * gram A 0 1 + q * q * gram A 1 1.
Proof.
  unfold gram, column, matvec. induction 1 as [|r rs Hr _ IH]; cbn [map dot]; [ring|].
  destruct r as [|a [|b [|? ?]]]; try discriminate Hr.
  cbn [nth dot]. rewrite IH. ring.
Qed.

Lemma sq_residual_expand (A : matrix) (p q : Qc) (y : list Qc) :
  Forall (fun r => length r = 2%nat) (rows A) ->
  length y = length (rows A) ->
  sq_residual A [p; q] y
  = p * p * gram A 0 0 + (1 + 1) * p * q * gram A 0 1 + q * q * gram A 1 1
    - (1 + 1) * p * moment A 0 y - (1 + 1) * q * moment A 1 y + dot y y.
Proof.
  unfold sq_residual, gram, moment, column, matvec. cbn zeta.
  intros H. revert y. induction H as [|r rs Hr _ IH]; intros [|v y] Hy;
    try discriminate Hy; cbn [map zip_with dot]; [ring|].
  destruct r as [|a [|b [|? ?]]]; try discriminate Hr.
  cbn [nth dot]. rewrite IH by (cbn [length] in Hy; congruence). ring.
Qed.

(** ** Independent columns and the Gram determinant *)

Lemma gram_det_nonzero (A : matrix) :
  wf A -> ncols A = 2%nat -> lin_indep_cols A -> gram_det A <> 0.
Proof.
  intros [_ HA] Hc Hind E. rewrite Hc in HA.
  assert (H0 : Forall (fun v => v = 0) [gram A 0 1; - gram A 0 0]).
  { apply Hind; [now rewrite Hc|].
    apply dot_self_zero. rewrite quadratic_form by exact HA.
    unfold gram_det in E.
    replace (gram A 0 1 * gram A 0 1 * gram A 0 0
             + (1 + 1) * gram A 0 1 * - gram A 0 0 * gram A 0 1
             + - gram A 0 0 * - gram A 0 0 * gram A 1 1)
      with (gram A 0 0 * (gram A 0 0 * gram A 1 1 - gram A 0 1 * gram A 0 1)) by ring.
    rewrite E. ring. }
  assert (H00 : gram A 0 0 = 0).
  { inversion H0 as [|? ? _ H1]; subst. inversion H1 as [|? ? H2 _]; subst.
    rewrite <- (Qcopp_involutive (gram A 0 0)), H2. ring. }
  apply dot_self_zero in H00.
  assert (H1 : Forall (fun v => v = 0) [1; 0]).
  { apply Hind; [now rewrite Hc|].
    unfold matvec. unfold column in H00. clear - H00 HA.
    induction HA as [|r rs Hr _ IH]; cbn [map] in *; constructor.
    - inversion H00 as [|? ? Ha _]; subst.
      destruct r as [|a [|b [|? ?]]]; try discriminate Hr.
      cbn [nth] in Ha. cbn [dot]. rewrite Ha. ring.
    - apply IH. now inversion H00. }
  inversion H1 as [|? ? Habs _]. now apply Q_apart_0_1.
Qed.

Lemma gram_det_dependent (A : matrix) (p q : Qc) :
  wf A -> ncols A = 2%nat ->
  Forall (fun v => v = 0) (matvec A [p; q]) ->
  p <> 0 \/ q <> 0 ->
  gram_det A = 0.
Proof.
  intros [_ HA] Hc Hz Hpq. rewrite Hc in HA.
  pose proof (dot_matvec2 (column 0 A) A p q HA) as E0.
  pose proof (dot_matvec2 (column 1 A) A p q HA) as E1.
  rewrite (dot_zero_r _ _ Hz) in E0. rewrite (dot_zero_r _ _ Hz) in E1.
  fold (gram A 0 0) (gram A 0 1) in E0. fold (gram A 1 0) (gram A 1 1) in E1.
  assert (G : gram A 1 0 = gram A 0 1) by apply dot_comm. rewrite G in E1.
  assert (Dp : gram_det A * p = 0).
  { unfold gram_det.
    replace ((gram A 0 0 * gram A 1 1 - gram A 0 1 * gram A 0 1) * p)
      with (gram A 1 1 * (p * gram A 0 0 + q * gram A 0 1)
            - gram A 0 1 * (p * gram A 0 1 + q * gram A 1 1)) by ring.
    rewrite <- E0, <- E1. ring. }
  assert (Dq : gram_det A * q = 0).
  { unfold gram_det.
    replace ((gram A 0 0 * gram A 1 1 - gram A 0 1 * gram A 0 1) * q)
      with (gram A 0 0 * (p * gram A 0 1 + q * gram A 1 1)
            - gram A 0 1 * (p * gram A 0 0 + q * gram A 0 1)) by ring.
    rewrite <- E0, <- E1. ring. }
  apply Qcmult_integral in Dp, Dq. tauto.
Qed.

(** ** The normal equations give the minimiser *)

Lemma normal_point_minimises (A : matrix) (y : list Qc) (s t : Qc) :
  Forall (fun r => length r = 2%nat) (rows A) ->
  length y = length (rows A) ->
  gram A 0 0 * s + gram A 0 1 * t = moment A 0 y ->
  gram A 0 1 * s + gram A 1 1 * t = moment A 1 y ->
  forall p q : Qc, sq_residual A [s; t] y <= sq_residual A [p; q] y.
Proof.
  intros HA Hy E0 E1 p q. apply Qcle_minus_iff.
  replace (sq_residual A [p; q] y + - sq_residual A [s; t] y)
    with (dot (matvec A [p - s; q - t]) (matvec A [p - s; q - t])).
  - apply dot_self_nonneg.
  - rewrite quadratic_form, !sq_residual_expand by assumption.
    rewrite <- E0, <- E1. ring.
Qed.

Lemma closed_form_normal (g00 g01 g11 m0 m1 : Qc) :
  g00 * g11 - g01 * g01 <> 0 ->
  g00 * ((g11 * m0 - g01 * m1) / (g00 * g11 - g01 * g01))
  + g01 * ((g00 * m1 - g01 * m0) / (g00 * g11 - g01 * g01)) = m0
  /\ g01 * ((g11 * m0 - g01 * m1) / (g00 * g11 - g01 * g01))
     + g11 * ((g00 * m1 - g01 * m0) / (g00 * g11 - g01 * g01)) = m1.
Proof. intros NE. split; field; exact NE. Qed.

Lemma least_squares_two_columns (A y : matrix) :
  wf A -> ncols A = 2%nat -> wf y -> ncols y = 1%nat -> nrows y = nrows A ->
  gram_det A <> 0 ->
  exists s t : Qc,
    solution (tf_constant A) (tf_constant y) = Ok (Mat 2 1 [[s]; [t]])
    /\ forall p q : Qc, sq_residual A [s; t] (column 0 y) <= sq_residual A [p; q] (column 0 y).
Proof.
  intros HA Hc Hy Hyc Hn NE.
  rewrite (solution_two_columns A y HA Hc Hyc Hn).
  destruct (decide (gram_det A = 0)) as [E|_]; [contradiction|].
  eexists; eexists; split; [reflexivity|].
  destruct (closed_form_normal (gram A 0 0) (gram A 0 1) (gram A 1 1)
              (moment A 0 (column 0 y)) (moment A 1 (column 0 y)) NE) as [E0 E1].
  destruct HA as [HAn HA]. rewrite Hc in HA.
  apply normal_point_minimises; try assumption.
  unfold column. rewrite length_map. destruct Hy as [Hy _]. congruence.
Qed.

(** ** The design matrix of cell 4 *)

Lemma wf_design_of (x : list Qc) : wf (design_of x).
Proof.
  unfold wf, design_of. cbn [nrows ncols rows]. split; [apply length_map|].
  apply List.Forall_forall. intros r Hr. apply in_map_iff in Hr as (v & <- & _). reflexivity.
Qed.



Lemma zip_columns (x : list Qc) (n : nat) :
  length x = n ->
  zip_with (@app Qc) (map (fun q => [q]) x) (map (fun q => [q]) (repeat 1 n))
  = map (fun v => [v; 1]) x.
Proof.
  intros <-. induction x as [|a x IH]; cbn [length repeat map zip_with app]; congruence.
Qed.

Lemma design_matrix_layout (x_vals : list Qc) :
  length x_vals = 100%nat -> design_matrix x_vals = Ok (design_of x_vals).
Proof.
  intros H. unfold design_matrix, np_column_stack, np_repeat.
  rewrite !transpose_np_matrix. cbn [nrows ncols rows].
  rewrite repeat_length, H, Nat.eqb_refl.
  rewrite (zip_columns x_vals 100 H). unfold design_of. now rewrite H.
Qed.

Lemma design_matrix_mismatch (x_vals : list Qc) :
  length x_vals <> 100%nat ->
  design_matrix x_vals
  = Raise (ValueError "all the input array dimensions except for the concatenation axis must match exactly").
Proof.
  intros H. unfold design_matrix, np_column_stack, np_repeat.
  rewrite !transpose_np_matrix. cbn [nrows ncols rows].
  rewrite repeat_length. apply Nat.eqb_neq in H. now rewrite H.
Qed.

Lemma matvec_design_of (x : list Qc) (p q : Qc) :
  matvec (design_of x) [p; q] = map (fun v => p * v + q) x.
Proof.
  unfold matvec, design_of. cbn [rows]. rewrite map_map.
  apply map_ext. intros v. cbn [dot]. ring.
Qed.

Lemma lin_indep_design_of (x : list Qc) : ~ constant x -> lin_indep_cols (design_of x).
Proof.
  intros Hx c Hc Hz. cbn [design_of ncols] in Hc.
  destruct c as [|p [|q [|? ?]]]; try discriminate Hc. clear Hc.
  rewrite matvec_design_of in Hz. rewrite List.Forall_forall in Hz.
  assert (Hp : p = 0).
  { destruct (decide (p = 0)) as [E|NE]; [exact E|]. exfalso. apply Hx.
    intros u v Hu Hv.
    pose proof (Hz _ (in_map (fun v => p * v + q) x u Hu)) as Eu.
    pose proof (Hz _ (in_map (fun v => p * v + q) x v Hv)) as Ev.
    cbn beta in Eu, Ev.
    assert (D : u - v = 0).
    { apply (Qcmult_integral_l p (u - v) NE).
      replace (p * (u - v)) with ((p * u + q) - (p * v + q)) by ring.
      rewrite Eu, Ev. ring. }
    replace u with ((u - v) + v) by ring. rewrite D. ring. }
  subst p. repeat constructor.
  destruct x as [|a x]; [exfalso; apply Hx; intros ? ? []|].
  pose proof (Hz _ (in_map (fun v => 0 * v + q) (a :: x) a (in_eq a x))) as Ea.
  cbn beta in Ea. rewrite <- Ea. ring.
Qed.

Lemma gram_det_constant (x : list Qc) : constant x -> gram_det (design_of x) = 0.
Proof.
  intros Hx. destruct x as [|a x].
  - reflexivity.
  - apply (gram_det_dependent (design_of (a :: x)) 1 (- a)).
    + apply wf_design_of.
    + reflexivity.
    + rewrite matvec_design_of. apply List.Forall_forall. intros r Hr.
      apply in_map_iff in Hr as (v & <- & Hv).
      rewrite (Hx v a Hv (in_eq a x)). ring.
    + left. apply Q_apart_0_1.
Qed.


(** ** Running the cells *)

Lemma length_noise_of (w : World) : length (noise_of w) = 100%nat.
Proof. unfold noise_of. now rewrite length_map, length_seq. Qed.

Lemma length_zip_same {A B C : Type} (f : A -> B -> C) (a : list A) (b : list B) :
  length a = length b -> length (zip_with f a b) = length a.
Proof.
  revert b. induction a as [|u a IH]; intros [|v b] H; try discriminate H; [reflexivity|].
  cbn [zip_with length]. f_equal. apply IH. now injection H.
Qed.

Lemma make_y_vals_run (x_vals : list Qc) (w : World) :
  length x_vals = 100%nat ->
  make_y_vals x_vals w = (Ok (zip_with Qcplus x_vals (noise_of w)), after_draw w).
Proof.
  intros H. unfold make_y_vals, bind, np_random_normal, lift, np_add.
  fold (noise_of w). fold (after_draw w).
  now rewrite length_noise_of, H, Nat.eqb_refl.
Qed.

Lemma solve_regular (x_vals y_vals : list Qc) :
  length y_vals = length x_vals -> ~ constant x_vals ->
  exists slope y_intercept : Qc,
    solve (design_of x_vals) y_vals = Ok (Mat 2 1 [[slope]; [y_intercept]])
    /\ forall p q : Qc,
        sq_residual (design_of x_vals) [slope; y_intercept] y_vals
        <= sq_residual (design_of x_vals) [p; q] y_vals.
Proof.
  intros Hl Hx. unfold solve. rewrite transpose_np_matrix.
  destruct (least_squares_two_columns (design_of x_vals)
              (Mat (length y_vals) 1 (map (fun q => [q]) y_vals))) as (s & t & E & Hmin).
  - apply wf_design_of.
  - reflexivity.
  - split; cbn [nrows ncols rows]; [apply length_map|].
    apply List.Forall_forall. intros r Hr. apply in_map_iff in Hr as (v & <- & _). reflexivity.
  - reflexivity.
  - exact Hl.
  - apply gram_det_nonzero; [apply wf_design_of | reflexivity | now apply lin_indep_design_of].
  - exists s, t. split; [exact E|].
    unfold column in Hmin. cbn [rows] in Hmin. rewrite column0_singletons in Hmin. exact Hmin.
Qed.

Lemma write_graph_run (w : World) :
  write_graph w
  = (Ok (event_file "tensorboard_logs/" w),
     set_fs ({[ "tensorboard_logs/"; event_file "tensorboard_logs/" w ]} ∪ fs w) w).
Proof.
  unfold write_graph, bind, os_path_exists, os_makedirs, tf_summary_FileWriter, ret.
  destruct (bool_decide ("tensorboard_logs/" ∈ fs w)) eqn:E; cbn [negb].
  - reflexivity.
  - rewrite E. unfold set_fs, event_file. cbn [fs timestamp hostname gauss drawn stdout gcf shown].
    do 2 f_equal. apply set_eq. intros p.
    rewrite !elem_of_union, !elem_of_singleton. tauto.
Qed.

Lemma pipeline_run (str : Qc -> string) (x_vals : list Qc) (w : World) :
  length x_vals = 100%nat -> ~ constant x_vals ->
  exists slope y_intercept : Qc,
    (let! solution_eval := solve (design_of x_vals) (zip_with Qcplus x_vals (noise_of w)) in
     extract_coefficients solution_eval) = Ok (slope, y_intercept)
    /\ pipeline str x_vals w
       = (Ok tt,
          after_pipeline str x_vals (zip_with Qcplus x_vals (noise_of w)) slope y_intercept w).
Proof.
  intros Hl Hx.
  assert (Hy : length (zip_with Qcplus x_vals (noise_of w)) = length x_vals).
  { apply length_zip_same. now rewrite length_noise_of. }
  destruct (solve_regular x_vals _ Hy Hx) as (s & t & E & _).
  exists s, t. rewrite E. split; [reflexivity|].
  unfold pipeline, bind at 1. rewrite (make_y_vals_run x_vals w Hl).
  unfold bind at 1, lift. rewrite (design_matrix_layout x_vals Hl).
  unfold bind at 1, sess_run, lift. rewrite E.
  unfold bind at 1. cbn [extract_coefficients getitem getitem1 rows nth_error rbind fst snd].
  unfold report, plot_results, bind, print, plt_plot, plt_legend, plt_show, ret, set_gcf.
  cbn [gauss drawn stdout gcf shown fs timestamp hostname lines legend_loc].
  rewrite Hy, length_map, !Nat.eqb_refl.
  rewrite write_graph_run.
  unfold after_pipeline, after_draw, set_fs, event_file, fit_figure, report_lines.
  cbn [gauss drawn stdout gcf shown fs timestamp hostname lines legend_loc].
  rewrite <- !app_assoc. reflexivity.
Qed.


Lemma length_linspace : length (np_linspace 0 (Qc_of_Z 10) 100) = 100%nat.
Proof. reflexivity. Qed.

Lemma constant_nth (x : list Qc) (i j : nat) :
  constant x -> (i < length x)%nat -> (j < length x)%nat -> nth i x 0 = nth j x 0.
Proof. intros H Hi Hj. apply H; now apply nth_In. Qed.

Lemma linspace_not_constant : ~ constant (np_linspace 0 (Qc_of_Z 10) 100).
Proof.
  intros H. apply (constant_nth _ 0 1) in H; try (rewrite length_linspace; lia).
  apply (f_equal this) in H. vm_compute in H. discriminate H.
Qed.


Lemma make_y_vals_eq (x_vals : list Qc) (w : World) :
  make_y_vals x_vals w = (np_add x_vals (noise_of w), after_draw w).
Proof. reflexivity. Qed.

Lemma np_add_mismatch (a b : list Qc) :
  length a <> 1%nat -> length b <> 1%nat -> length a <> length b ->
  np_add a b = Raise (ValueError "operands could not be broadcast together").
Proof.
  intros Ha Hb Hab. unfold np_add. apply Nat.eqb_neq in Hab. rewrite Hab.
  destruct a as [|u [|u' a]], b as [|v [|v' b]]; try reflexivity;
    solve [now elim Ha | now elim Hb].
Qed.

Lemma nth_zip_with {A B C : Type} (f : A -> B -> C) (a : list A) (b : list B)
    (i : nat) (da : A) (db : B) (dc : C) :
  (i < length a)%nat -> (i < length b)%nat ->
  nth i (zip_with f a b) dc = f (nth i a da) (nth i b db).
Proof.
  revert a b. induction i as [|i IH]; intros [|u a] [|v b] Ha Hb;
    cbn [length] in *; try lia; cbn [zip_with nth]; [reflexivity|].
  apply IH; lia.
Qed.

Lemma nth_noise_of (w : World) (i : nat) :
  (i < 100)%nat -> nth i (noise_of w) 0 = 0 + 1 * gauss w (drawn w + i)%nat.
Proof.
  intros Hi. unfold noise_of.
  set (f := fun k : nat => 0 + 1 * gauss w (drawn w + k)%nat).
  rewrite (nth_indep _ 0 (f 0%nat)) by now rewrite length_map, length_seq.
  rewrite (map_nth f). now rewrite seq_nth.
Qed.

Lemma linspace_values (i : nat) :
  (i < 100)%nat ->
  nth i (np_linspace 0 (Qc_of_Z 10) 100) 0
  = Qc_of_Z (Z.of_nat i) * (Qc_of_Z 10 / Qc_of_Z 99).
Proof.
  intros Hi.
  assert (H : forallb (fun k => bool_decide
                         (nth k (np_linspace 0 (Qc_of_Z 10) 100) 0
                          = Qc_of_Z (Z.of_nat k) * (Qc_of_Z 10 / Qc_of_Z 99)))
                      (seq 0 100) = true) by (vm_compute; reflexivity).
  rewrite forallb_forall in H.
  assert (Hin : In i (seq 0 100)) by (apply in_seq; lia).
  apply H in Hin. now apply bool_decide_eq_true in Hin.
Qed.

(** ** The solver in binary64 *)






(** ** The model at work *)

Example matrix_inverse_3x3 :
  (let! i := matrix_inverse (Mat 3 3 [[1 + 1; 0; 1]; [1; 1; 1 + 1]; [1; 1; 1]]) in
   matmul i (Mat 3 3 [[1 + 1; 0; 1]; [1; 1; 1 + 1]; [1; 1; 1]]))
  = Ok (Mat 3 3 [[1; 0; 0]; [0; 1; 0]; [0; 0; 1]]).
Proof. vm_compute. entrywise; apply Qc_is_canon; reflexivity. Qed.

Example notebook_noiseless_run :
  notebook str_fraction empty_world
  = (Ok tt, snd (notebook str_fraction empty_world))
  /\ stdout (snd (notebook str_fraction empty_world)) = ["slope: 1/1"; "y_intercept: 0/1"].
Proof. split; vm_compute; reflexivity. Qed.

Example notebook_noisy_run :
  stdout (snd (notebook str_fraction alternating_world))
  = ["slope: 502/505"; "y_intercept: 3/101"].
Proof. vm_compute. reflexivity. Qed.

Example broadcast_single_x :
  np_add [1] [0; 1; 1] = Ok [1 + 0; 1 + 1; 1 + 1]
  /\ is_raise (design_matrix [1]).
Proof. split; [reflexivity | exact I]. Qed.

(** The data generator is not repeatable: the second draw differs from
    the first. *)
Example generator_not_repeatable :
  fst (np_random_normal 0 1 1 alternating_world)
  <> fst (np_random_normal 0 1 1 (snd (np_random_normal 0 1 1 alternating_world))).
Proof.
  intros H. apply (f_equal (fun r => match r with
                                     | Ok [q] => this q
                                     | _ => 0%Q
                                     end)) in H.
  vm_compute in H. discriminate H.
Qed.

(** The binary64 result depends on the order in which the kernel adds the
    products: on x = y = [1e8, 1e8+1, 1e8+2, 1e8+3] the intercept is
    12410012.5 when they are added one after the other and 12410013 with
    two interleaved partial sums. *)
Example accumulation_order_matters :
  exists s t s' t' : PrimFloat.float,
    Binary64.solution Binary64.sequential (Binary64.design_of Binary64.x_far)
                      (Binary64.column_of Binary64.x_far)
    = Ok (Binary64.Mat 2 1 [[s]; [t]])
    /\ Binary64.solution Binary64.two_lanes (Binary64.design_of Binary64.x_far)
                         (Binary64.column_of Binary64.x_far)
       = Ok (Binary64.Mat 2 1 [[s']; [t']])
    /\ Binary64.to_Qc t = Some (Qc_of_Z 24820025 / Qc_of_Z 2)
    /\ Binary64.to_Qc t' = Some (Qc_of_Z 12410013).
Proof.
  do 4 eexists. split; [vm_compute; reflexivity|]. split; [vm_compute; reflexivity|].
  split; vm_compute; entrywise; apply Qc_is_canon; reflexivity.
Qed.

(** * The claims *)












(** C6.  For x = [0, 1, 2, 3] and y = [0, 1, 2, 3] the design matrix has
    the x-values in column 0 and ones in column 1, and the solver followed
    by the extraction of cell 7 returns slope 1 and intercept 0. *)
Theorem scenario_identity_line :
  A4 = design_of x_identity
  /\ y4 = transpose (np_matrix x_identity)
  /\ (let! solution_eval := solution (tf_constant A4) (tf_constant y4) in
      extract_coefficients solution_eval) = Ok (1, 0).
Proof.
  split; [reflexivity|]. split; [reflexivity|].
  vm_compute. entrywise; apply Qc_is_canon; reflexivity.
Qed.

(** C8.  Cell 3 produces exactly 100 x-values, the same in every world,
    evenly spaced from 0 to 10 (step 10/99), and 100 y-values, the i-th
    being the i-th x-value plus its own fresh variate of the generator,
    taken with location 0 and scale 1. *)
Theorem create_data_spec (w : World) :
  exists y_vals : list Qc,
    create_data w = (Ok (np_linspace 0 (Qc_of_Z 10) 100, y_vals), after_draw w)
    /\ length (np_linspace 0 (Qc_of_Z 10) 100) = 100%nat
    /\ length y_vals = 100%nat
    /\ nth 0 (np_linspace 0 (Qc_of_Z 10) 100) 0 = 0
    /\ nth 99 (np_linspace 0 (Qc_of_Z 10) 100) 0 = Qc_of_Z 10
    /\ (forall i : nat,
          (i < 100)%nat ->
          nth i (np_linspace 0 (Qc_of_Z 10) 100) 0
          = Qc_of_Z (Z.of_nat i) * (Qc_of_Z 10 / Qc_of_Z 99))
    /\ (forall i : nat,
          (i < 100)%nat ->
          nth i y_vals 0
          = nth i (np_linspace 0 (Qc_of_Z 10) 100) 0 + (0 + 1 * gauss w (drawn w + i)%nat))
    /\ drawn (after_draw w) = (drawn w + 100)%nat.
Proof.
  exists (zip_with Qcplus (np_linspace 0 (Qc_of_Z 10) 100) (noise_of w)).
  split; [|split; [|split; [|split; [|split; [|split; [|split]]]]]].
  - unfold create_data, bind. rewrite make_y_vals_run by apply length_linspace. reflexivity.
  - apply length_linspace.
  - rewrite length_zip_same; [apply length_linspace|].
    now rewrite length_linspace, length_noise_of.
  - apply Qc_is_canon. reflexivity.
  - apply Qc_is_canon. reflexivity.
  - apply linspace_values.
  - intros i Hi.
    rewrite (nth_zip_with Qcplus _ _ i 0 0 0);
      [ | now rewrite length_linspace | now rewrite length_noise_of ].
    f_equal. now apply nth_noise_of.
  - reflexivity.
Qed.

(** C9.  A run of the notebook succeeds and adds exactly two lines to the
    console: [slope: ] followed by the rendering of the slope, then
    [y_intercept: ] followed by the rendering of the intercept, both as
    cell 7 extracts them from the solution for the data of this run. *)
Theorem console_output (str : Qc -> string) (w : World) :
  exists (A : matrix) (slope y_intercept : Qc),
    design_matrix (np_linspace 0 (Qc_of_Z 10) 100) = Ok A
    /\ (let! solution_eval :=
          solve A (zip_with Qcplus (np_linspace 0 (Qc_of_Z 10) 100) (noise_of w)) in
        extract_coefficients solution_eval) = Ok (slope, y_intercept)
    /\ fst (notebook str w) = Ok tt
    /\ stdout (snd (notebook str w))
       = (stdout w ++ ["slope: " +:+ str slope; "y_intercept: " +:+ str y_intercept])%list.
Proof.
  destruct (pipeline_run str (np_linspace 0 (Qc_of_Z 10) 100) w
              length_linspace linspace_not_constant) as (s & t & E & R).
  exists (design_of (np_linspace 0 (Qc_of_Z 10) 100)), s, t.
  split; [apply design_matrix_layout, length_linspace|].
  split; [exact E|].
  unfold notebook. rewrite R. split; reflexivity.
Qed.

(** C10.  The pipeline needs exactly 100 x-values.  With 100 of them the
    y-values and the design matrix are built.  For an x-sequence of any
    other length the construction of the y-values or of the design matrix
    raises (the design matrix always does, the y-values unless the
    sequence has one element and is broadcast), so the pipeline raises and
    prints nothing. *)
Theorem pipeline_needs_100_values (str : Qc -> string) (x_vals : list Qc) (w : World) :
  (length x_vals = 100%nat ->
   exists (y_vals : list Qc) (A : matrix),
     make_y_vals x_vals w = (Ok y_vals, after_draw w)
     /\ length y_vals = 100%nat
     /\ design_matrix x_vals = Ok A
     /\ nrows A = 100%nat /\ ncols A = 2%nat)
  /\ (length x_vals <> 100%nat ->
      (is_raise (fst (make_y_vals x_vals w)) \/ is_raise (design_matrix x_vals))
      /\ is_raise (design_matrix x_vals)
      /\ (length x_vals <> 1%nat -> is_raise (fst (make_y_vals x_vals w)))
      /\ is_raise (fst (pipeline str x_vals w))
      /\ stdout (snd (pipeline str x_vals w)) = stdout w).
Proof.
  split.
  - intros H. exists (zip_with Qcplus x_vals (noise_of w)), (design_of x_vals).
    repeat split.
    + now apply make_y_vals_run.
    + rewrite length_zip_same; [exact H | now rewrite length_noise_of].
    + now apply design_matrix_layout.
    + exact H.
  - intros H.
    assert (D : is_raise (design_matrix x_vals))
      by (rewrite (design_matrix_mismatch x_vals H); exact I).
    assert (P : exists e : exception, pipeline str x_vals w = (Raise e, after_draw w)).
    { unfold pipeline, bind at 1. rewrite make_y_vals_eq.
      destruct (np_add x_vals (noise_of w)) as [y_vals|e]; [|now exists e].
      unfold bind at 1, lift. rewrite (design_matrix_mismatch x_vals H).
      eexists. reflexivity. }
    destruct P as [e P]. rewrite P.
    repeat split; try tauto.
    intros H1. rewrite make_y_vals_eq. cbn [fst].
    now rewrite (np_add_mismatch x_vals (noise_of w) H1) by (rewrite length_noise_of; lia).
Qed.

Lemma pipeline_needs_100_values_witness :
  length x_identity <> 100%nat
  /\ is_raise (design_matrix x_identity)
  /\ is_raise (fst (pipeline str_fraction x_identity empty_world))
  /\ stdout (snd (pipeline str_fraction x_identity empty_world)) = stdout empty_world.
Proof.
  assert (H : length x_identity <> 100%nat) by (cbn; lia).
  split; [exact H|].
  destruct (pipeline_needs_100_values str_fraction x_identity empty_world) as [_ F].
  destruct (F H) as (_ & D & _ & P & S). auto.
Defined.

(** The failing half of C10 on a sequence of four values, by evaluation. *)
Example four_values_raise :
  fst (pipeline str_fraction x_identity empty_world)
  = Raise (ValueError "operands could not be broadcast together")
  /\ design_matrix x_identity
     = Raise (ValueError "all the input array dimensions except for the concatenation axis must match exactly").
Proof. split; vm_compute; reflexivity. Qed.

(** C3, as the specification states it, fails: started on an empty file
    system, a run leaves the directory [tensorboard_logs/] and an event
    file in it behind. *)
Lemma run_writes_files :
  fs empty_world = ∅
  /\ fs (snd (notebook str_fraction empty_world))
     = {[ "tensorboard_logs/";
          "tensorboard_logs/events.out.tfevents.1541171307.localhost" ]}
  /\ ~ leaves_no_files (notebook str_fraction).
Proof.
  assert (E : fs (snd (notebook str_fraction empty_world))
              = {[ "tensorboard_logs/";
                   "tensorboard_logs/events.out.tfevents.1541171307.localhost" ]})
    by (vm_compute; reflexivity).
  split; [reflexivity|]. split; [exact E|].
  intros H. specialize (H empty_world). rewrite E in H.
  assert (Hin : "tensorboard_logs/" ∈ fs empty_world).
  { rewrite <- H. apply elem_of_union_l, elem_of_singleton. reflexivity. }
  exact (not_elem_of_empty _ Hin).
Qed.

(** C3, amended.  A run of the notebook succeeds and has exactly these
    effects: two lines on the console, one figure rendered, 100 variates
    consumed from the random generator and, on the file system, the
    directory [tensorboard_logs/] and one event file in it; every other
    path is left as it was. *)
Theorem run_effects (str : Qc -> string) (w : World) :
  exists w' : World,
    notebook str w = (Ok tt, w')
    /\ fs w' = {[ "tensorboard_logs/"; event_file "tensorboard_logs/" w ]} ∪ fs w
    /\ (exists l1 l2 : string, stdout w' = (stdout w ++ [l1; l2])%list)
    /\ (exists f : figure, shown w' = (shown w ++ [f])%list)
    /\ gcf w' = Figure [] None
    /\ drawn w' = (drawn w + 100)%nat
    /\ gauss w' = gauss w
    /\ timestamp w' = timestamp w
    /\ hostname w' = hostname w.
Proof.
  destruct (pipeline_run str (np_linspace 0 (Qc_of_Z 10) 100) w
              length_linspace linspace_not_constant) as (s & t & _ & R).
  eexists. split; [exact R|].
  unfold after_pipeline, report_lines.
  cbn [gauss drawn stdout gcf shown fs timestamp hostname].
  repeat split; eauto.
Qed.

(** * Further properties of the cells *)

(** ** The shape of the solution *)

(** X1.  Whatever the shapes of [A] and [y], a solution the solver
    returns is a well-formed matrix with one row per column of [A] and one
    column per column of [y]. *)
Theorem solution_shape (A y sol : matrix) :
  solution (tf_constant A) (tf_constant y) = Ok sol ->
  wf sol /\ nrows sol = ncols A /\ ncols sol = ncols y.
Proof.
  unfold solution, tf_constant, tf_transpose, tf_matmul, tf_matrix_inverse.
  cbn [rbind]. rewrite (matmul_Ok (transpose A) A) by reflexivity. cbn [rbind].
  unfold matrix_inverse. cbn [nrows ncols rows transpose]. rewrite Nat.eqb_refl.
  match goal with |- context [decide (?d = 0)] => destruct (decide (d = 0)) end;
    [cbn [rbind]; intros E; discriminate E|].
  cbn [rbind]. rewrite matmul_Ok by reflexivity. cbn [rbind].
  unfold matmul. cbn [nrows ncols rows transpose].
  destruct (nrows A =? nrows y)%nat; [|intros E; discriminate E].
  intros E. injection E as <-. unfold wf. cbn [nrows ncols rows].
  rewrite !length_map, length_seq. repeat split.
  apply List.Forall_forall. intros r Hr. apply in_map_iff in Hr as (r' & <- & _).
  now rewrite !length_map, length_seq.
Qed.

Lemma solution_shape_witness :
  wf (Mat 2 1 [[1]; [0]])
  /\ nrows (Mat 2 1 [[1]; [0]]) = ncols A4 /\ ncols (Mat 2 1 [[1]; [0]]) = ncols y4.
Proof.
  apply (solution_shape A4 y4 (Mat 2 1 [[1]; [0]])).
  vm_compute. entrywise; apply Qc_is_canon; reflexivity.
Defined.

(** X2.  A target with a row count other than that of [A] never yields a
    solution: the solver raises instead of fitting a truncated system. *)
Theorem solution_row_mismatch (A y : matrix) :
  nrows y <> nrows A -> is_raise (solution (tf_constant A) (tf_constant y)).
Proof.
  intros H.
  unfold solution, tf_constant, tf_transpose, tf_matmul, tf_matrix_inverse.
  cbn [rbind]. rewrite (matmul_Ok (transpose A) A) by reflexivity. cbn [rbind].
  unfold matrix_inverse. cbn [nrows ncols rows transpose]. rewrite Nat.eqb_refl.
  match goal with |- context [decide (?d = 0)] => destruct (decide (d = 0)) end;
    [exact I|].
  cbn [rbind]. rewrite matmul_Ok by reflexivity. cbn [rbind].
  unfold matmul. cbn [nrows ncols rows transpose].
  assert (E : (nrows A =? nrows y)%nat = false) by (apply Nat.eqb_neq; congruence).
  rewrite E. exact I.
Qed.

Lemma solution_row_mismatch_witness :
  is_raise (solution (tf_constant A4) (tf_constant (Mat 3 1 [[0]; [1]; [1]]))).
Proof.
  apply (solution_row_mismatch A4 (Mat 3 1 [[0]; [1]; [1]])).
  cbn. lia.
Defined.

(** ** Runs of the whole notebook *)

(** X11.  The notebook can be run again in the world a run leaves
    behind: the second run also succeeds (the log directory now exists),
    draws the next 100 variates rather than the same ones, and in all the
    two runs print four lines and show two figures. *)
Theorem notebook_rerun (str : Qc -> string) (w : World) :
  exists w1 w2 : World,
    notebook str w = (Ok tt, w1)
    /\ notebook str w1 = (Ok tt, w2)
    /\ noise_of w1 = map (fun k => 0 + 1 * gauss w (drawn w + 100 + k)%nat) (seq 0 100)
    /\ drawn w2 = (drawn w + 200)%nat
    /\ length (stdout w2) = (length (stdout w) + 4)%nat
    /\ length (shown w2) = (length (shown w) + 2)%nat
    /\ fs w ⊆ fs w2.
Proof.
  destruct (pipeline_run str (np_linspace 0 (Qc_of_Z 10) 100) w
              length_linspace linspace_not_constant) as (s1 & t1 & _ & R1).
  remember (after_pipeline str (np_linspace 0 (Qc_of_Z 10) 100)
              (zip_with Qcplus (np_linspace 0 (Qc_of_Z 10) 100) (noise_of w)) s1 t1 w)
    as w1 eqn:Hw1.
  destruct (pipeline_run str (np_linspace 0 (Qc_of_Z 10) 100) w1
              length_linspace linspace_not_constant) as (s2 & t2 & _ & R2).
  exists w1. eexists. split; [exact R1|]. split; [exact R2|].
  subst w1. unfold after_pipeline, report_lines, noise_of.
  cbn [gauss drawn stdout gcf shown fs timestamp hostname].
  rewrite !length_app. cbn [length].
  repeat split; try lia.
  etransitivity; [|apply union_subseteq_r]. apply union_subseteq_r.
Qed.

(** X12.  The figure a run shows holds, after whatever the current figure
    already held, exactly two series over the same 100 x-values: the data
    as points labelled "Data", then the line [slope * x + y_intercept]
    labelled "Best fit line" with line width 3, with the legend at the
    upper left; the current figure is empty afterwards. *)
Theorem notebook_figure (str : Qc -> string) (w : World) :
  exists slope y_intercept : Qc,
    (let! solution_eval :=
       solve (design_of (np_linspace 0 (Qc_of_Z 10) 100))
             (zip_with Qcplus (np_linspace 0 (Qc_of_Z 10) 100) (noise_of w)) in
     extract_coefficients solution_eval) = Ok (slope, y_intercept)
    /\ shown (snd (notebook str w))
       = (shown w
          ++ [Figure
                (lines (gcf w)
                 ++ [Series (np_linspace 0 (Qc_of_Z 10) 100)
                            (zip_with Qcplus (np_linspace 0 (Qc_of_Z 10) 100) (noise_of w))
                            "o" "Data" None;
                     Series (np_linspace 0 (Qc_of_Z 10) 100)
                            (map (fun i => slope * i + y_intercept)
                                 (np_linspace 0 (Qc_of_Z 10) 100))
                            "r-" "Best fit line" (Some 3%nat)])
                (Some "upper left")])%list
    /\ gcf (snd (notebook str w)) = Figure [] None.
Proof.
  destruct (pipeline_run str (np_linspace 0 (Qc_of_Z 10) 100) w
              length_linspace linspace_not_constant) as (s & t & E & R).
  exists s, t. split; [exact E|].
  unfold notebook. rewrite R. split; reflexivity.
Qed.

(** ** Extraction and rank *)

(** X13.  Cell 7 reads entries (0,0) and (1,0): on a well-formed matrix
    with at least two rows and one column it returns them, and on one with
    fewer rows or no column it raises. *)
Theorem extract_coefficients_bounds (m : matrix) :
  wf m ->
  ((2 <= nrows m)%nat -> (1 <= ncols m)%nat ->
   extract_coefficients m = Ok (nth 0 (column 0 m) 0, nth 1 (column 0 m) 0))
  /\ ((nrows m < 2)%nat \/ ncols m = 0%nat -> is_raise (extract_coefficients m)).
Proof.
  destruct m as [n c rs]. unfold wf, extract_coefficients, getitem, getitem1, column.
  cbn [nrows ncols rows]. intros [Hn Hc]. split.
  - intros H2 H1.
    destruct rs as [|r0 [|r1 rs]]; cbn [length] in Hn; try lia.
    inversion Hc as [|? ? L0 Hc']; subst. inversion Hc' as [|? ? L1 _]; subst.
    destruct r0 as [|a r0]; cbn [length] in *; try lia.
    destruct r1 as [|b r1]; cbn [length] in *; try lia.
    reflexivity.
  - intros [H|H].
    + destruct rs as [|r0 [|r1 rs]]; cbn [length] in Hn; try lia; cbn [nth_error rbind].
      * exact I.
      * destruct r0; exact I.
    + subst c. destruct rs as [|r0 rs]; cbn [nth_error rbind]; [exact I|].
      inversion Hc as [|? ? L0 _]; subst.
      destruct r0; [exact I | discriminate L0].
Qed.

Lemma extract_coefficients_bounds_witness :
  ((2 <= nrows y4)%nat -> (1 <= ncols y4)%nat ->
   extract_coefficients y4 = Ok (nth 0 (column 0 y4) 0, nth 1 (column 0 y4) 0))
  /\ ((nrows y4 < 2)%nat \/ ncols y4 = 0%nat -> is_raise (extract_coefficients y4)).
Proof.
  apply (extract_coefficients_bounds y4).
  split; [reflexivity | repeat constructor].
Defined.

(** X14.  The design matrix of cell 4 has linearly independent columns
    exactly when the x-values are not all identical. *)
Theorem design_matrix_full_rank_iff (x_vals : list Qc) :
  length x_vals = 100%nat ->
  exists A : matrix,
    design_matrix x_vals = Ok A
    /\ wf A
    /\ (lin_indep_cols A <-> ~ constant x_vals).
Proof.
  intros Hl. exists (design_of x_vals).
  split; [now apply design_matrix_layout|]. split; [apply wf_design_of|]. split.
  - intros Hind Hc.
    apply (gram_det_nonzero (design_of x_vals) (wf_design_of x_vals) eq_refl Hind).
    now apply gram_det_constant.
  - apply lin_indep_design_of.
Qed.

Lemma design_matrix_full_rank_iff_witness :
  exists A : matrix,
    design_matrix (np_linspace 0 (Qc_of_Z 10) 100) = Ok A
    /\ wf A
    /\ (lin_indep_cols A <-> ~ constant (np_linspace 0 (Qc_of_Z 10) 100)).
Proof.
  apply (design_matrix_full_rank_iff (np_linspace 0 (Qc_of_Z 10) 100)).
  reflexivity.
Defined.
